(** * gambitcore: the [DatabaseQueries] gateway

    A shallow embedding of [gambitcore/DatabaseQueries.py]: the three
    relations the queries read, the meaning of the three SQL statements,
    the order in which the engine yields their rows, the cursor that holds
    them, and the four methods of the class with their logging, exceptions
    and process exit made explicit. *)

From Stdlib Require Import ZArith List String Ascii Bool Lia Permutation.
From stdpp Require Import gmap strings.
Import ListNotations.

Local Open Scope string_scope.
Local Open Scope list_scope.

(** ** The relations *)

(** Modelled from the spec: the declarations of the tables [genomes],
    [genome_annotations] and [taxa] are not part of the source, which only
    names the columns it reads.  Following the data model of the
    specification, identifiers are integers and [refseq_acc], [name] and
    [rank] are strings. *)
Module genomes.
Record row := { id : Z; refseq_acc : string }.
End genomes.

Module genome_annotations.
Record row := { genome_id : Z; taxon_id : Z }.
End genome_annotations.

Module taxa.
Record row := { id : Z; name : string; rank : string }.
End taxa.

Record database := {
  tbl_genomes : list genomes.row;
  tbl_genome_annotations : list genome_annotations.row;
  tbl_taxa : list taxa.row
}.

(** ** Python strings *)

(** [s.split(sep)] for a separator of one character.  The result is never
    empty: the empty string splits into one empty string. *)
Fixpoint str_split (sep : ascii) (s : string) : list string :=
  match s with
  | EmptyString => [EmptyString]
  | String c rest =>
      if Ascii.eqb c sep then EmptyString :: str_split sep rest
      else match str_split sep rest with
           | [] => [String c EmptyString]
           | piece :: pieces => String c piece :: pieces
           end
  end.

Definition comma : ascii := ","%char.

(** Whether a string holds the character [c]. *)
Fixpoint str_contains (c : ascii) (s : string) : bool :=
  match s with
  | EmptyString => false
  | String c' rest => Ascii.eqb c' c || str_contains c rest
  end.

(** How often the character [c] occurs in a string. *)
Fixpoint str_count (c : ascii) (s : string) : nat :=
  match s with
  | EmptyString => 0
  | String c' rest => (if Ascii.eqb c' c then 1 else 0) + str_count c rest
  end.

(** ** The SQL statements *)

(** A result row, as the [sqlite3] module hands it over: a tuple of
    column values. *)
Definition row := list string.

(** One row of
    [genomes JOIN genome_annotations ON genomes.id = genome_annotations.genome_id
             JOIN taxa ON genome_annotations.taxon_id = taxa.id]. *)
Definition joined : Type := genomes.row * genome_annotations.row * taxa.row.

(** The rows of the three-way join, one for every triple of table rows
    that the ON conditions connect, listed table by table.  [on_taxa] is
    the rest of the ON condition of the last join.  The list says which
    rows the join has and how often; the order in which a statement gets
    them is not this one but the engine's, see [scan_order]. *)
Definition join (on_taxa : taxa.row -> bool) (d : database) : list joined :=
  flat_map (fun g =>
    flat_map (fun ga =>
      if Z.eqb (genomes.id g) (genome_annotations.genome_id ga) then
        flat_map (fun t =>
          if Z.eqb (genome_annotations.taxon_id ga) (taxa.id t) && on_taxa t
          then [(g, ga, t)] else [])
          (tbl_taxa d)
      else [])
      (tbl_genome_annotations d))
    (tbl_genomes d).

Definition rank_is_species (t : taxa.row) : bool :=
  String.eqb (taxa.rank t) "species".

(** The three SELECT statements, by the method that runs them. *)
Inductive query_id :=
| q_find_species_from_accession
| q_get_species_from_genomes_accession_from_db
| q_get_all_genomes_for_a_species_from_db.

(** None of the statements has an ORDER BY, so the order in which the rows
    of the join reach a statement is chosen by the engine: it follows from
    the query plan, which depends on the schema, the indexes and the
    statistics of the database file, none of which the source shows.  An
    engine is modelled with the order it picks: for every statement and
    every value bound to [?], a rearrangement of the rows, the same one
    each time the statement runs on unchanged tables. *)
Record scan_order := {
  order : query_id -> string -> list joined -> list joined;
  order_permutes : forall q param rows, Permutation (order q param rows) rows
}.

(** The engine that yields the rows as [join] lists them. *)
Definition in_table_order : scan_order :=
  {| order := fun _ _ rows => rows;
     order_permutes := fun _ _ rows => Permutation_refl rows |}.

(** The engine that yields them the other way round. *)
Definition in_reverse_order : scan_order :=
  {| order := fun _ _ rows => rev rows;
     order_permutes := fun _ _ rows => Permutation_sym (Permutation_rev rows) |}.

(** [FROM ... JOIN ... ON ... WHERE where_]: the rows of the join that
    satisfy the WHERE condition, in the order in which the engine yields
    them to statement [q] with [param] bound to [?]. *)
Definition scan (plan : scan_order) (q : query_id) (param : string)
    (where_ : joined -> bool) (on_taxa : taxa.row -> bool) (d : database)
  : list joined :=
  order plan q param (List.filter where_ (join on_taxa d)).

(** [GROUP BY]: the groups in ascending order of their key (the order in
    which SQLite's sorter emits them), each with its values in the order
    in which the rows were scanned. *)
Fixpoint group_insert (k v : string) (gs : list (string * list string))
  : list (string * list string) :=
  match gs with
  | [] => [(k, [v])]
  | (k', vs) :: rest =>
      match String.compare k k' with
      | Eq => (k', vs ++ [v]) :: rest
      | Lt => (k, [v]) :: gs
      | Gt => (k', vs) :: group_insert k v rest
      end
  end.

Definition group_by (kvs : list (string * string)) : list (string * list string) :=
  fold_left (fun gs kv => group_insert (fst kv) (snd kv) gs) kvs [].

(** [GROUP_CONCAT(X)]: the values of the group joined by a comma. *)
Definition GROUP_CONCAT (vs : list string) : string := String.concat "," vs.

(** [SELECT taxa.name FROM genomes JOIN ... WHERE genomes.refseq_acc = ?] *)
Definition select_name_where_acc (plan : scan_order) (d : database) (param : string)
  : list row :=
  map (fun j : joined => let '(g, ga, t) := j in [taxa.name t])
    (scan plan q_find_species_from_accession param
       (fun j : joined => let '(g, ga, t) := j in
          String.eqb (genomes.refseq_acc g) param)
       (fun _ => true) d).

(** [SELECT t.name, GROUP_CONCAT(g.refseq_acc) FROM ... AND t.rank = 'species'
    WHERE <cond> GROUP BY t.name] *)
Definition select_species_grouped (plan : scan_order) (q : query_id) (param : string)
    (cond : joined -> bool) (d : database) : list row :=
  map (fun g : string * list string => [fst g; GROUP_CONCAT (snd g)])
    (group_by
       (map (fun j : joined => let '(g, ga, t) := j in
               (taxa.name t, genomes.refseq_acc g))
          (scan plan q param cond rank_is_species d))).

(** ... [WHERE g.refseq_acc = ?] *)
Definition select_species_where_acc (plan : scan_order) (d : database) (param : string)
  : list row :=
  select_species_grouped plan q_get_species_from_genomes_accession_from_db param
    (fun j : joined => let '(g, ga, t) := j in String.eqb (genomes.refseq_acc g) param) d.

(** ... [WHERE t.name = ?] *)
Definition select_species_where_name (plan : scan_order) (d : database) (param : string)
  : list row :=
  select_species_grouped plan q_get_all_genomes_for_a_species_from_db param
    (fun j : joined => let '(g, ga, t) := j in String.eqb (taxa.name t) param) d.

(** ** Effects: exceptions, logging, process exit *)

Inductive exn :=
| sqlite3_Error (e : string)      (* [sqlite3.Error] and its subclasses *)
| IndexError (e : string)
| TypeError (e : string)
| OtherException (e : string).

(** How a call ends: it returns, an exception leaves it, or [exit(status)]
    ends the process. *)
Inductive outcome (A : Type) :=
| Returned (a : A)
| Raised (x : exn)
| Exited (status : Z).
Arguments Returned {A} a.
Arguments Raised {A} x.
Arguments Exited {A} status.

(** What a call can change: the rows the gateway's cursor still holds from
    the last [execute], and the lines handed to [logging.error]. *)
Record world := { pending : list row; logged : list string }.

Definition M (A : Type) : Type := world -> outcome A * world.

#[global] Instance M_ret : MRet M := fun A a w => (Returned a, w).

#[global] Instance M_bind : MBind M := fun A B k m w =>
  match m w with
  | (Returned a, w') => k a w'
  | (Raised x, w') => (Raised x, w')
  | (Exited s, w') => (Exited s, w')
  end.

Definition raise {A} (x : exn) : M A := fun w => (Raised x, w).

(** The builtin [exit]. *)
Definition exit {A} (status : Z) : M A := fun w => (Exited status, w).

Definition logging_error (msg : string) : M unit := fun w =>
  (Returned tt, {| pending := pending w; logged := logged w ++ [msg] |}).

(** [try: body except sqlite3.Error as e: handler e] *)
Definition try_except_sqlite3 {A} (body : M A) (handler : string -> M A) : M A :=
  fun w =>
    match body w with
    | (Raised (sqlite3_Error e), w') => handler e w'
    | r => r
    end.

(** ** The cursor *)

(** Where the database engine fails, if it does. *)
Inductive fault :=
| Healthy
| ExecuteError (e : string)
| FetchError (e : string).

(** A cursor on a connection: the tables behind it, the order in which the
    engine scans them, and the condition of the engine. *)
Record Cursor := { tables : database; plan : scan_order; condition : fault }.

(** The meaning of a statement with one [?]. *)
Definition statement : Type := scan_order -> database -> string -> list row.

Definition execute (c : Cursor) (sql : statement) (param : string) : M unit :=
  fun w =>
    match condition c with
    | ExecuteError e =>
        (Raised (sqlite3_Error e), {| pending := []; logged := logged w |})
    | _ =>
        (Returned tt,
         {| pending := sql (plan c) (tables c) param; logged := logged w |})
    end.

Definition fetchone (c : Cursor) : M (option row) :=
  fun w =>
    match condition c with
    | FetchError e => (Raised (sqlite3_Error e), w)
    | _ =>
        match pending w with
        | [] => (Returned None, w)
        | r :: rest => (Returned (Some r), {| pending := rest; logged := logged w |})
        end
    end.

Definition fetchall (c : Cursor) : M (list row) :=
  fun w =>
    match condition c with
    | FetchError e => (Raised (sqlite3_Error e), w)
    | _ => (Returned (pending w), {| pending := []; logged := logged w |})
    end.

(** ** Python values *)

(** Truth value of what [fetchone] returns: [None] is false, a tuple is
    true unless it is empty. *)
Definition truthy (v : option row) : bool :=
  match v with
  | None => false
  | Some t => negb (Nat.eqb (length t) 0)
  end.

(** [t[i]] on a tuple. *)
Definition getitem (t : row) (i : nat) : M string :=
  match nth_error t i with
  | Some x => mret x
  | None => raise (IndexError "tuple index out of range")
  end.

(** [v[i]] on what [fetchone] returned. *)
Definition subscript (v : option row) (i : nat) : M string :=
  match v with
  | Some t => getitem t i
  | None => raise (TypeError "'NoneType' object is not subscriptable")
  end.

(** [{row[0]: row[1].split(",") for row in results}], filled row by row
    into [acc]; a later row replaces the value of an equal key. *)
Fixpoint dict_of_rows (results : list row) (acc : gmap string (list string))
  : M (gmap string (list string)) :=
  match results with
  | [] => mret acc
  | row :: rest =>
      k ← getitem row 0;
      v ← getitem row 1;
      dict_of_rows rest (<[k := str_split comma v]> acc)
  end.

(** ** The class [DatabaseQueries] *)

Record DatabaseQueries := { database_filename : string; cursor : Cursor }.

Definition find_species_from_accession (self : DatabaseQueries)
    (closest_accession : string) : M string :=
  let sql := select_name_where_acc in
  _ ← execute (cursor self) sql closest_accession;
  species_name ← fetchone (cursor self);
  let species_name_for_accession := "Unknown" in
  if truthy species_name then
    species_name_for_accession ← subscript species_name 0;
    mret species_name_for_accession
  else
    mret species_name_for_accession.

Definition get_species_from_genomes_accession_from_db (self : DatabaseQueries)
    (genome_accession : string) : M (option string) :=
  try_except_sqlite3
    (let query := select_species_where_acc in
     _ ← execute (cursor self) query genome_accession;
     results ← fetchall (cursor self);
     if Nat.eqb (length results) 0 then mret None
     else
       match results with
       | [] => raise (IndexError "list index out of range")
       | first :: _ => species ← getitem first 0; mret (Some species)
       end)
    (fun e =>
       _ ← logging_error
             ("get_species_from_genomes_accession_from_db - Database query error: " ++ e);
       exit 1).

Definition get_all_genomes_for_a_species_from_db (self : DatabaseQueries)
    (species : string) : M (gmap string (list string)) :=
  try_except_sqlite3
    (let query := select_species_where_name in
     _ ← execute (cursor self) query species;
     results ← fetchall (cursor self);
     dict_of_rows results ∅)
    (fun e =>
       _ ← logging_error
             ("get_all_genomes_for_a_species_from_db - Database query error: " ++ e);
       exit 1).

Section Connecting.

(** [sqlite3.connect(db_name).cursor()]: what the engine answers for a
    database location is a parameter of the model. *)
Variable sqlite3_connect : string -> exn + Cursor.

Definition connect_to_db (db_name : string) : M Cursor :=
  try_except_sqlite3
    (match sqlite3_connect db_name with
     | inr c => fun w => (Returned c, {| pending := []; logged := logged w |})
     | inl x => raise x
     end)
    (fun e =>
       _ ← logging_error ("Error connecting to the database: " ++ e);
       exit 1).

Definition __init__ (database_filename : string) : M DatabaseQueries :=
  cursor ← connect_to_db database_filename;
  mret {| database_filename := database_filename; cursor := cursor |}.

End Connecting.

(** ** What the specification speaks of *)

(** A gateway on tables [d] whose engine answers every call and scans in
    the order [plan]. *)
Definition gateway_over (filename : string) (d : database) (plan : scan_order)
  : DatabaseQueries :=
  {| database_filename := filename;
     cursor := {| tables := d; plan := plan; condition := Healthy |} |}.

(** The message of the database error the engine answers with, if any. *)
Definition db_error (c : Cursor) : option string :=
  match condition c with
  | Healthy => None
  | ExecuteError e | FetchError e => Some e
  end.

(** Genome [g] is annotated to taxon [t]: a row of [genome_annotations]
    connects the two identifiers. *)
Definition annotated (d : database) (g : genomes.row) (t : taxa.row) : Prop :=
  In g (tbl_genomes d) /\ In t (tbl_taxa d) /\
  exists ga, In ga (tbl_genome_annotations d) /\
             genome_annotations.genome_id ga = genomes.id g /\
             genome_annotations.taxon_id ga = taxa.id t.

(** Some genome with accession [acc] is annotated to [t]. *)
Definition taxon_of_accession (d : database) (acc : string) (t : taxa.row) : Prop :=
  exists g, annotated d g t /\ genomes.refseq_acc g = acc.

(** Accession [acc] belongs to a genome annotated, at species rank, to a
    taxon named [species]. *)
Definition accession_of_species (d : database) (species acc : string) : Prop :=
  exists g t, annotated d g t /\ genomes.refseq_acc g = acc /\
              taxa.rank t = "species" /\ taxa.name t = species.

(** All accessions annotated to [species] at species rank, one per
    annotation, listed table by table. *)
Definition accessions_of_species (d : database) (species : string) : list string :=
  map (fun j : joined => let '(g, ga, t) := j in genomes.refseq_acc g)
    (List.filter (fun j : joined => let '(g, ga, t) := j in String.eqb (taxa.name t) species)
       (join rank_is_species d)).

(** The names of the taxa that the genomes with accession [acc] are
    annotated to, at any rank, one per annotation, listed table by table. *)
Definition taxon_names_of_accession (d : database) (acc : string) : list string :=
  map (fun j : joined => let '(g, ga, t) := j in taxa.name t)
    (List.filter (fun j : joined => let '(g, ga, t) := j in
                    String.eqb (genomes.refseq_acc g) acc)
       (join (fun _ => true) d)).

(** The accessions of the rows that the engine aggregates for [species],
    in the order in which it scans them. *)
Definition aggregated_accessions (plan : scan_order) (d : database) (species : string)
  : list string :=
  map (fun j : joined => let '(g, ga, t) := j in genomes.refseq_acc g)
    (scan plan q_get_all_genomes_for_a_species_from_db species
       (fun j : joined => let '(g, ga, t) := j in String.eqb (taxa.name t) species)
       rank_is_species d).

(** The taxon names of the rows that the engine yields for [acc], in the
    order in which it yields them. *)
Definition fetched_taxon_names (plan : scan_order) (d : database) (acc : string)
  : list string :=
  map (fun j : joined => let '(g, ga, t) := j in taxa.name t)
    (scan plan q_find_species_from_accession acc
       (fun j : joined => let '(g, ga, t) := j in
          String.eqb (genomes.refseq_acc g) acc)
       (fun _ => true) d).

Definition comma_free (s : string) : Prop := str_contains comma s = false.

(** The databases of the scenarios. *)
Definition ecoli_db : database :=
  {| tbl_genomes :=
       [ {| genomes.id := 1; genomes.refseq_acc := "GCF_000001" |};
         {| genomes.id := 2; genomes.refseq_acc := "GCF_000002" |} ];
     tbl_genome_annotations :=
       [ {| genome_annotations.genome_id := 1; genome_annotations.taxon_id := 10 |};
         {| genome_annotations.genome_id := 2; genome_annotations.taxon_id := 10 |} ];
     tbl_taxa :=
       [ {| taxa.id := 10; taxa.name := "Escherichia coli"; taxa.rank := "species" |} ] |}.

Definition empty_db : database :=
  {| tbl_genomes := []; tbl_genome_annotations := []; tbl_taxa := [] |}.

(** A species with two genomes, the accession of the first of which holds
    a comma. *)
Definition comma_db : database :=
  {| tbl_genomes :=
       [ {| genomes.id := 1; genomes.refseq_acc := "GCF_1,GCF_2" |};
         {| genomes.id := 2; genomes.refseq_acc := "GCF_3" |} ];
     tbl_genome_annotations :=
       [ {| genome_annotations.genome_id := 1; genome_annotations.taxon_id := 7 |};
         {| genome_annotations.genome_id := 2; genome_annotations.taxon_id := 7 |} ];
     tbl_taxa :=
       [ {| taxa.id := 7; taxa.name := "Bacillus subtilis"; taxa.rank := "species" |} ] |}.

(** A species whose name holds a comma, its accessions none. *)
Definition comma_name_db : database :=
  {| tbl_genomes :=
       [ {| genomes.id := 1; genomes.refseq_acc := "GCF_7" |};
         {| genomes.id := 2; genomes.refseq_acc := "GCF_8" |} ];
     tbl_genome_annotations :=
       [ {| genome_annotations.genome_id := 1; genome_annotations.taxon_id := 7 |};
         {| genome_annotations.genome_id := 2; genome_annotations.taxon_id := 7 |} ];
     tbl_taxa :=
       [ {| taxa.id := 7; taxa.name := "Bacillus, sp."; taxa.rank := "species" |} ] |}.

(** One genome annotated to two taxa, a genus and a species. *)
Definition two_taxa_db : database :=
  {| tbl_genomes := [ {| genomes.id := 1; genomes.refseq_acc := "GCF_000005" |} ];
     tbl_genome_annotations :=
       [ {| genome_annotations.genome_id := 1; genome_annotations.taxon_id := 10 |};
         {| genome_annotations.genome_id := 1; genome_annotations.taxon_id := 20 |} ];
     tbl_taxa :=
       [ {| taxa.id := 10; taxa.name := "Escherichia"; taxa.rank := "genus" |};
         {| taxa.id := 20; taxa.name := "Escherichia coli"; taxa.rank := "species" |} ] |}.

(** One genome annotated to a taxon that is named like the sentinel. *)
Definition unknown_db : database :=
  {| tbl_genomes := [ {| genomes.id := 1; genomes.refseq_acc := "GCF_000009" |} ];
     tbl_genome_annotations :=
       [ {| genome_annotations.genome_id := 1; genome_annotations.taxon_id := 3 |} ];
     tbl_taxa := [ {| taxa.id := 3; taxa.name := "Unknown"; taxa.rank := "genus" |} ] |}.

Definition fresh_world : world := {| pending := []; logged := [] |}.

(** * Properties *)

(** ** Splitting and joining *)

Lemma str_split_nonempty sep s : str_split sep s <> [].
Proof.
  induction s as [|c s IH]; simpl; [discriminate|].
  destruct (Ascii.eqb c sep); [discriminate|].
  destruct (str_split sep s); discriminate.
Qed.

Lemma str_split_no_sep sep s :
  str_contains sep s = false -> str_split sep s = [s].
Proof.
  induction s as [|c s IH]; simpl; [reflexivity|].
  intros H. apply orb_false_iff in H as [Hc Hs].
  rewrite Hc, (IH Hs). reflexivity.
Qed.

Lemma str_split_app sep s rest :
  str_contains sep s = false ->
  str_split sep (s ++ String sep rest)%string = s :: str_split sep rest.
Proof.
  induction s as [|c s IH]; simpl.
  - intros _. rewrite Ascii.eqb_refl. reflexivity.
  - intros H. apply orb_false_iff in H as [Hc Hs].
    rewrite Hc, (IH Hs). reflexivity.
Qed.

Lemma GROUP_CONCAT_cons a b l :
  GROUP_CONCAT (a :: b :: l) = (a ++ String comma (GROUP_CONCAT (b :: l)))%string.
Proof. reflexivity. Qed.

Lemma split_GROUP_CONCAT l :
  l <> [] -> Forall comma_free l -> str_split comma (GROUP_CONCAT l) = l.
Proof.
  induction l as [|a l IH]; [congruence|].
  intros _ HF. inversion HF as [|? ? Ha Hl]; subst.
  destruct l as [|b l].
  - apply str_split_no_sep, Ha.
  - rewrite GROUP_CONCAT_cons, str_split_app by exact Ha.
    f_equal. apply IH; [discriminate | exact Hl].
Qed.

(** ** The join *)

Lemma in_join p d g ga t :
  In (g, ga, t) (join p d) <->
  In g (tbl_genomes d) /\ In ga (tbl_genome_annotations d) /\ In t (tbl_taxa d) /\
  genomes.id g = genome_annotations.genome_id ga /\
  genome_annotations.taxon_id ga = taxa.id t /\ p t = true.
Proof.
  unfold join. rewrite in_flat_map. split.
  - intros (g' & Hg & H). apply in_flat_map in H as (ga' & Hga & H).
    destruct (Z.eqb_spec (genomes.id g') (genome_annotations.genome_id ga'))
      as [Eg|]; [|contradiction].
    apply in_flat_map in H as (t' & Ht & H).
    destruct (Z.eqb_spec (genome_annotations.taxon_id ga') (taxa.id t'))
      as [Et|]; simpl in H; [|contradiction].
    destruct (p t') eqn:Hp; simpl in H; [|contradiction].
    destruct H as [H|[]]. inversion H; subst. tauto.
  - intros (Hg & Hga & Ht & Eg & Et & Hp).
    exists g. split; [exact Hg|]. apply in_flat_map. exists ga. split; [exact Hga|].
    rewrite Eg, Z.eqb_refl. apply in_flat_map. exists t. split; [exact Ht|].
    rewrite Et, Z.eqb_refl, Hp. simpl. left. reflexivity.
Qed.

Lemma in_join_annotated p d g ga t :
  In (g, ga, t) (join p d) -> annotated d g t /\ p t = true.
Proof.
  rewrite in_join. intros (Hg & Hga & Ht & Eg & Et & Hp).
  split; [|exact Hp]. repeat split; try assumption.
  exists ga. repeat split; [assumption | symmetry; assumption | assumption].
Qed.

Lemma annotated_in_join p d g t :
  annotated d g t -> p t = true -> exists ga, In (g, ga, t) (join p d).
Proof.
  intros (Hg & Ht & ga & Hga & Eg & Et) Hp. exists ga.
  apply in_join. repeat split; try assumption. symmetry; assumption.
Qed.

Lemma rank_is_species_true t :
  rank_is_species t = true <-> taxa.rank t = "species".
Proof. unfold rank_is_species. apply String.eqb_eq. Qed.

Lemma in_accessions_of_species d species acc :
  In acc (accessions_of_species d species) <-> accession_of_species d species acc.
Proof.
  unfold accessions_of_species, accession_of_species. rewrite in_map_iff. split.
  - intros ([[g ga] t] & Hacc & Hin). apply filter_In in Hin as [Hin Hname].
    apply in_join_annotated in Hin as [Hann Hrank].
    exists g, t. split; [exact Hann|]. split; [exact Hacc|]. split.
    + apply rank_is_species_true, Hrank.
    + apply String.eqb_eq, Hname.
  - intros (g & t & Hann & Hacc & Hrank & Hname).
    destruct (annotated_in_join rank_is_species d g t Hann) as [ga Hin].
    { apply rank_is_species_true, Hrank. }
    exists (g, ga, t). split; [exact Hacc|].
    apply filter_In. split; [exact Hin | apply String.eqb_eq, Hname].
Qed.

(** ** Grouping *)

Lemma string_compare_refl s : String.compare s s = Eq.
Proof.
  induction s as [|c s IH]; simpl; [reflexivity|].
  unfold Ascii.compare. rewrite N.compare_refl. exact IH.
Qed.

Lemma group_insert_nonempty k v gs : group_insert k v gs <> [].
Proof.
  destruct gs as [|[k' vs] rest]; simpl; [discriminate|].
  destruct (String.compare k k'); discriminate.
Qed.

Lemma fold_group_insert_nonempty kvs gs :
  gs <> [] ->
  fold_left (fun gs kv => group_insert (fst kv) (snd kv) gs) kvs gs <> [].
Proof.
  revert gs. induction kvs as [|kv kvs IH]; intros gs Hgs; simpl; [exact Hgs|].
  apply IH, group_insert_nonempty.
Qed.

Lemma group_by_nil kvs : group_by kvs = [] <-> kvs = [].
Proof.
  split; [|intros ->; reflexivity].
  destruct kvs as [|kv kvs]; [reflexivity|]. unfold group_by. simpl. intros H.
  exfalso. revert H. apply fold_group_insert_nonempty. discriminate.
Qed.

Lemma group_insert_key k v gs k' vs :
  In (k', vs) (group_insert k v gs) -> k' = k \/ exists vs', In (k', vs') gs.
Proof.
  induction gs as [|[k0 vs0] rest IH]; simpl.
  - intros [H|[]]. inversion H. left; reflexivity.
  - destruct (String.compare k k0) eqn:Hcmp; simpl.
    + intros [H|H].
      * inversion H; subst. right. exists vs0. left; reflexivity.
      * right. exists vs. right; exact H.
    + intros [H|[H|H]].
      * inversion H. left; reflexivity.
      * right. exists vs. left; exact H.
      * right. exists vs. right; exact H.
    + intros [H|H].
      * right. exists vs. left; exact H.
      * destruct (IH H) as [->|[vs' H']]; [left; reflexivity|].
        right. exists vs'. right; exact H'.
Qed.

Lemma fold_group_insert_key kvs gs k vs :
  In (k, vs) (fold_left (fun gs kv => group_insert (fst kv) (snd kv) gs) kvs gs) ->
  (exists vs', In (k, vs') gs) \/ exists v, In (k, v) kvs.
Proof.
  revert gs. induction kvs as [|[k0 v0] kvs IH]; intros gs; simpl.
  - intros H. left. exists vs. exact H.
  - intros H. destruct (IH _ H) as [[vs' H']|[v H']].
    + apply group_insert_key in H'. simpl in H'. destruct H' as [->|H'].
      * right. exists v0. left; reflexivity.
      * left. exact H'.
    + right. exists v. right; exact H'.
Qed.

Lemma group_by_key kvs k vs :
  In (k, vs) (group_by kvs) -> exists v, In (k, v) kvs.
Proof.
  intros H. apply fold_group_insert_key in H as [[vs' []]|H]. exact H.
Qed.

Lemma fold_group_insert_same_key k vs acc :
  fold_left (fun gs kv => group_insert (fst kv) (snd kv) gs) (map (pair k) vs) [(k, acc)]
  = [(k, acc ++ vs)].
Proof.
  revert acc. induction vs as [|v vs IH]; intros acc; simpl.
  - rewrite app_nil_r. reflexivity.
  - rewrite string_compare_refl, IH, <- app_assoc. reflexivity.
Qed.

(** Rows that share their key form one group, which keeps their order. *)
Lemma group_by_same_key k vs :
  group_by (map (pair k) vs) = match vs with [] => [] | _ => [(k, vs)] end.
Proof.
  destruct vs as [|v vs]; [reflexivity|].
  unfold group_by. simpl. apply (fold_group_insert_same_key k vs [v]).
Qed.

(** ** The order of the scan *)

(** Whatever order the engine picks, a statement gets the rows of the join
    that satisfy its WHERE condition, each as often as the join has it. *)
Lemma scan_permutation plan q param cond p d :
  Permutation (scan plan q param cond p d) (List.filter cond (join p d)).
Proof. apply order_permutes. Qed.

Lemma in_scan plan q param cond p d j :
  In j (scan plan q param cond p d) <-> In j (join p d) /\ cond j = true.
Proof.
  rewrite <- filter_In. split; apply Permutation_in.
  - apply scan_permutation.
  - apply Permutation_sym, scan_permutation.
Qed.

Lemma scan_nil plan q param cond p d :
  scan plan q param cond p d = [] <-> forall j, In j (join p d) -> cond j = false.
Proof.
  split.
  - intros H j Hin. destruct (cond j) eqn:Hc; [|reflexivity].
    assert (Hj : In j (scan plan q param cond p d)) by (apply in_scan; auto).
    rewrite H in Hj. destruct Hj.
  - intros H. destruct (scan plan q param cond p d) as [|j l] eqn:E; [reflexivity|].
    assert (Hj : In j (scan plan q param cond p d)) by (rewrite E; left; reflexivity).
    apply in_scan in Hj as [Hin Hc]. rewrite (H j Hin) in Hc. discriminate.
Qed.

Lemma permutation_nil_iff {A} (l l' : list A) :
  Permutation l l' -> l = [] <-> l' = [].
Proof.
  intros H. split; intros ->.
  - apply Permutation_nil. exact H.
  - apply Permutation_nil, Permutation_sym. exact H.
Qed.

Lemma list_sum_permutation l l' : Permutation l l' -> list_sum l = list_sum l'.
Proof. induction 1; simpl; lia. Qed.

Lemma aggregated_accessions_permutation plan d species :
  Permutation (aggregated_accessions plan d species) (accessions_of_species d species).
Proof. apply Permutation_map, scan_permutation. Qed.

Lemma fetched_taxon_names_permutation plan d acc :
  Permutation (fetched_taxon_names plan d acc) (taxon_names_of_accession d acc).
Proof. apply Permutation_map, scan_permutation. Qed.

Lemma in_aggregated_accessions plan d species acc :
  In acc (aggregated_accessions plan d species) <-> accession_of_species d species acc.
Proof.
  rewrite <- in_accessions_of_species. split; apply Permutation_in.
  - apply aggregated_accessions_permutation.
  - apply Permutation_sym, aggregated_accessions_permutation.
Qed.

Lemma aggregated_accessions_nil plan d species :
  aggregated_accessions plan d species = [] <-> accessions_of_species d species = [].
Proof. apply permutation_nil_iff, aggregated_accessions_permutation. Qed.

Lemma aggregated_accessions_comma_free plan d species :
  Forall comma_free (accessions_of_species d species) ->
  Forall comma_free (aggregated_accessions plan d species).
Proof.
  apply Permutation_Forall, Permutation_sym, aggregated_accessions_permutation.
Qed.

(** ** The statements *)

(** The statement with [WHERE t.name = ?] yields no row, or the one row of
    the species with all its accessions joined in the order of the scan. *)
Lemma select_species_where_name_rows plan d species :
  select_species_where_name plan d species =
  match aggregated_accessions plan d species with
  | [] => []
  | accs => [[species; GROUP_CONCAT accs]]
  end.
Proof.
  unfold select_species_where_name, select_species_grouped, aggregated_accessions.
  match goal with |- context [scan ?pl ?q ?x ?f ?p ?d] => set (rows := scan pl q x f p d) end.
  assert (Hk : map (fun j : joined => let '(g, ga, t) := j in
                      (taxa.name t, genomes.refseq_acc g)) rows
               = map (pair species)
                   (map (fun j : joined => let '(g, ga, t) := j in genomes.refseq_acc g)
                      rows)).
  { rewrite map_map. apply map_ext_in. intros [[g ga] t] Hin.
    apply in_scan in Hin as [_ Hname]. apply String.eqb_eq in Hname.
    rewrite Hname. reflexivity. }
  rewrite Hk, group_by_same_key. clear Hk.
  generalize (map (fun j : joined => let '(g, ga, t) := j in genomes.refseq_acc g) rows).
  intros [|a l]; reflexivity.
Qed.

(** Every row of the grouped statements has its two columns, and its first
    column names a taxon of species rank that satisfies the condition. *)
Lemma select_species_grouped_row plan q param cond d r :
  In r (select_species_grouped plan q param cond d) ->
  exists g ga t accs,
    r = [taxa.name t; accs] /\ In (g, ga, t) (join rank_is_species d) /\
    cond (g, ga, t) = true.
Proof.
  unfold select_species_grouped. intros H.
  apply in_map_iff in H as ([k vs] & <- & H).
  apply group_by_key in H as [v H].
  apply in_map_iff in H as ([[g ga] t] & E & H).
  apply in_scan in H as [Hin Hc]. inversion E; subst.
  exists g, ga, t, (GROUP_CONCAT vs). auto.
Qed.

Lemma select_species_grouped_nil plan q param cond d :
  select_species_grouped plan q param cond d = [] <->
  forall j, In j (join rank_is_species d) -> cond j = false.
Proof.
  rewrite <- (scan_nil plan q param). unfold select_species_grouped. split.
  - intros H. apply map_eq_nil in H. apply group_by_nil in H.
    apply map_eq_nil in H. exact H.
  - intros ->. reflexivity.
Qed.

Lemma select_name_where_acc_rows plan d acc :
  select_name_where_acc plan d acc = map (fun n => [n]) (fetched_taxon_names plan d acc).
Proof.
  unfold select_name_where_acc, fetched_taxon_names. rewrite map_map.
  apply map_ext. intros [[g ga] t]. reflexivity.
Qed.

Lemma in_taxon_names_of_accession d acc n :
  In n (taxon_names_of_accession d acc) <->
  exists t, taxon_of_accession d acc t /\ taxa.name t = n.
Proof.
  unfold taxon_names_of_accession, taxon_of_accession. rewrite in_map_iff. split.
  - intros ([[g ga] t] & Hn & Hin). apply filter_In in Hin as [Hin Hacc].
    apply in_join_annotated in Hin as [Hann _].
    exists t. split; [|exact Hn]. exists g. split; [exact Hann|].
    apply String.eqb_eq, Hacc.
  - intros (t & (g & Hann & Hacc) & Hn).
    destruct (annotated_in_join (fun _ => true) d g t Hann eq_refl) as [ga Hin].
    exists (g, ga, t). split; [exact Hn|].
    apply filter_In. split; [exact Hin | apply String.eqb_eq, Hacc].
Qed.

Lemma in_fetched_taxon_names plan d acc n :
  In n (fetched_taxon_names plan d acc) <->
  exists t, taxon_of_accession d acc t /\ taxa.name t = n.
Proof.
  rewrite <- in_taxon_names_of_accession. split; apply Permutation_in.
  - apply fetched_taxon_names_permutation.
  - apply Permutation_sym, fetched_taxon_names_permutation.
Qed.

(** ** What each method does, engine condition by engine condition *)

Ltac run_method :=
  unfold try_except_sqlite3, execute, fetchone, fetchall, logging_error, exit, raise,
    mbind, M_bind, mret, M_ret; simpl.

Lemma find_species_from_accession_run self acc w :
  find_species_from_accession self acc w =
  let rows := select_name_where_acc (plan (cursor self)) (tables (cursor self)) acc in
  match condition (cursor self) with
  | ExecuteError e =>
      (Raised (sqlite3_Error e), {| pending := []; logged := logged w |})
  | FetchError e =>
      (Raised (sqlite3_Error e), {| pending := rows; logged := logged w |})
  | Healthy =>
      match fetched_taxon_names (plan (cursor self)) (tables (cursor self)) acc with
      | [] => (Returned "Unknown", {| pending := []; logged := logged w |})
      | n :: _ => (Returned n, {| pending := tl rows; logged := logged w |})
      end
  end.
Proof.
  unfold find_species_from_accession. run_method.
  destruct (condition (cursor self)); try reflexivity.
  rewrite select_name_where_acc_rows.
  destruct (fetched_taxon_names (plan (cursor self)) (tables (cursor self)) acc);
    reflexivity.
Qed.

Lemma get_species_from_genomes_accession_from_db_run self acc w :
  get_species_from_genomes_accession_from_db self acc w =
  let rows := select_species_where_acc (plan (cursor self)) (tables (cursor self)) acc in
  let line e :=
    ("get_species_from_genomes_accession_from_db - Database query error: " ++ e)%string in
  match condition (cursor self) with
  | ExecuteError e =>
      (Exited 1, {| pending := []; logged := logged w ++ [line e] |})
  | FetchError e =>
      (Exited 1, {| pending := rows; logged := logged w ++ [line e] |})
  | Healthy =>
      (Returned match rows with [] => None | first :: _ => nth_error first 0 end,
       {| pending := []; logged := logged w |})
  end.
Proof.
  unfold get_species_from_genomes_accession_from_db. run_method.
  destruct (condition (cursor self)); try reflexivity.
  destruct (select_species_where_acc (plan (cursor self)) (tables (cursor self)) acc)
    as [|first rest] eqn:E; [reflexivity|].
  assert (Hin : In first (select_species_where_acc
                            (plan (cursor self)) (tables (cursor self)) acc))
    by (rewrite E; left; reflexivity).
  apply select_species_grouped_row in Hin as (g & ga & t & accs & -> & _).
  reflexivity.
Qed.

Lemma get_all_genomes_for_a_species_from_db_run self species w :
  get_all_genomes_for_a_species_from_db self species w =
  let rows :=
    select_species_where_name (plan (cursor self)) (tables (cursor self)) species in
  let line e :=
    ("get_all_genomes_for_a_species_from_db - Database query error: " ++ e)%string in
  match condition (cursor self) with
  | ExecuteError e =>
      (Exited 1, {| pending := []; logged := logged w ++ [line e] |})
  | FetchError e =>
      (Exited 1, {| pending := rows; logged := logged w ++ [line e] |})
  | Healthy =>
      (Returned match aggregated_accessions
                        (plan (cursor self)) (tables (cursor self)) species with
                | [] => ∅
                | accs => {[ species := str_split comma (GROUP_CONCAT accs) ]}
                end,
       {| pending := []; logged := logged w |})
  end.
Proof.
  unfold get_all_genomes_for_a_species_from_db. run_method.
  destruct (condition (cursor self)); try reflexivity.
  rewrite select_species_where_name_rows.
  destruct (aggregated_accessions (plan (cursor self)) (tables (cursor self)) species);
    reflexivity.
Qed.

(** The outcome of a call depends on the gateway and the argument only,
    not on the rows an earlier call left in the cursor nor on the log. *)
Lemma find_species_from_accession_outcome self acc w w' :
  fst (find_species_from_accession self acc w) =
  fst (find_species_from_accession self acc w').
Proof.
  rewrite !find_species_from_accession_run. simpl.
  destruct (condition (cursor self)); try reflexivity.
  destruct (fetched_taxon_names _ _ _); reflexivity.
Qed.

Lemma get_species_from_genomes_accession_from_db_outcome self acc w w' :
  fst (get_species_from_genomes_accession_from_db self acc w) =
  fst (get_species_from_genomes_accession_from_db self acc w').
Proof.
  rewrite !get_species_from_genomes_accession_from_db_run. simpl.
  destruct (condition (cursor self)); reflexivity.
Qed.

Lemma get_all_genomes_for_a_species_from_db_outcome self species w w' :
  fst (get_all_genomes_for_a_species_from_db self species w) =
  fst (get_all_genomes_for_a_species_from_db self species w').
Proof.
  rewrite !get_all_genomes_for_a_species_from_db_run. simpl.
  destruct (condition (cursor self)); reflexivity.
Qed.

(** The comprehension only stores what [split] returned, which is never
    the empty list. *)
Lemma dict_of_rows_values_nonempty rows :
  forall acc w m w',
    (forall k v, acc !! k = Some v -> v <> []) ->
    dict_of_rows rows acc w = (Returned m, w') ->
    forall k v, m !! k = Some v -> v <> [].
Proof.
  induction rows as [|r rows IH]; intros acc w m w' Hacc Hrun; simpl in Hrun.
  - inversion Hrun; subst. exact Hacc.
  - unfold mbind, M_bind, getitem in Hrun.
    destruct (nth_error r 0) as [k0|]; [|discriminate Hrun].
    destruct (nth_error r 1) as [v0|]; [|discriminate Hrun].
    unfold mret, M_ret in Hrun.
    apply (IH _ _ _ _) with (2 := Hrun).
    intros k v. destruct (decide (k0 = k)) as [->|Hne].
    + rewrite lookup_insert_eq. intros [= <-]. apply str_split_nonempty.
    + rewrite lookup_insert_ne by exact Hne. apply Hacc.
Qed.

Lemma get_all_genomes_returned self species w m :
  fst (get_all_genomes_for_a_species_from_db self species w) = Returned m ->
  exists w0 w1,
    dict_of_rows
      (select_species_where_name (plan (cursor self)) (tables (cursor self)) species)
      ∅ w0
    = (Returned m, w1).
Proof.
  unfold get_all_genomes_for_a_species_from_db. run_method.
  destruct (condition (cursor self)); simpl; try discriminate.
  match goal with
  | |- context [dict_of_rows ?rows ∅ ?w0] =>
      destruct (dict_of_rows rows ∅ w0) as [[a|x|s] w1] eqn:E
  end; simpl.
  - intros [= ->]. eauto.
  - destruct x; simpl; discriminate.
  - discriminate.
Qed.

(** ** [split] and the aggregate *)

(** [sep.join(s.split(sep))] is [s]. *)
Lemma concat_str_split sep s :
  String.concat (String sep EmptyString) (str_split sep s) = s.
Proof.
  induction s as [|c s IH]; simpl; [reflexivity|].
  destruct (Ascii.eqb_spec c sep) as [->|Hne].
  - destruct (str_split sep s) as [|p ps] eqn:E.
    + exfalso. exact (str_split_nonempty sep s E).
    + simpl in *. rewrite IH. reflexivity.
  - destruct (str_split sep s) as [|p ps] eqn:E.
    + exfalso. exact (str_split_nonempty sep s E).
    + destruct ps as [|q qs]; simpl in *; rewrite <- IH; reflexivity.
Qed.

Lemma str_split_pieces sep s :
  Forall (fun piece => str_contains sep piece = false) (str_split sep s).
Proof.
  induction s as [|c s IH]; simpl.
  - repeat constructor.
  - destruct (Ascii.eqb c sep) eqn:Hc.
    + constructor; [reflexivity | exact IH].
    + destruct (str_split sep s) as [|p ps].
      * repeat constructor. simpl. rewrite Hc. reflexivity.
      * inversion IH as [|? ? Hp Hps]; subst.
        constructor; [simpl; rewrite Hc, Hp; reflexivity | exact Hps].
Qed.

Lemma length_str_split sep s :
  length (str_split sep s) = S (str_count sep s).
Proof.
  induction s as [|c s IH]; simpl; [reflexivity|].
  destruct (Ascii.eqb c sep); simpl.
  - rewrite IH. reflexivity.
  - destruct (str_split sep s) as [|p ps]; simpl in *; [discriminate IH | exact IH].
Qed.

Lemma str_count_app c s t :
  str_count c (s ++ t)%string = str_count c s + str_count c t.
Proof.
  induction s as [|c' s IH]; simpl; [reflexivity|]. rewrite IH. lia.
Qed.

Lemma str_count_GROUP_CONCAT a l :
  str_count comma (GROUP_CONCAT (a :: l))
  = length l + list_sum (map (str_count comma) (a :: l)).
Proof.
  revert a. induction l as [|b l IH]; intros a.
  - unfold GROUP_CONCAT. simpl. lia.
  - rewrite GROUP_CONCAT_cons, str_count_app.
    change (str_count comma (String comma (GROUP_CONCAT (b :: l))))
      with (S (str_count comma (GROUP_CONCAT (b :: l)))).
    rewrite IH. simpl. lia.
Qed.

(** The split of an aggregate has one string per value and one more for
    every comma in a value. *)
Lemma length_split_GROUP_CONCAT l :
  l <> [] ->
  length (str_split comma (GROUP_CONCAT l))
  = length l + list_sum (map (str_count comma) l).
Proof.
  destruct l as [|a l]; [congruence|]. intros _.
  rewrite length_str_split, str_count_GROUP_CONCAT. simpl. lia.
Qed.

Lemma str_count_zero c s : str_count c s = 0 -> str_contains c s = false.
Proof.
  induction s as [|c' s IH]; simpl; [reflexivity|].
  destruct (Ascii.eqb c' c); simpl; [discriminate | exact IH].
Qed.

Lemma commas_when_not_comma_free l :
  ~ Forall comma_free l -> 0 < list_sum (map (str_count comma) l).
Proof.
  induction l as [|a l IH]; intros H.
  - exfalso. apply H. constructor.
  - simpl. destruct (str_count comma a) as [|n] eqn:E; [|lia].
    simpl. apply IH. intros Hl. apply H. constructor; [|exact Hl].
    apply str_count_zero, E.
Qed.

(** With a comma in one of the values, the split of the aggregate of any
    arrangement of them has more strings than there are values. *)
Lemma split_of_commas_is_longer (stored accs : list string) :
  Permutation accs stored -> ~ Forall comma_free stored ->
  length stored < length (str_split comma (GROUP_CONCAT accs)) /\
  ~ Permutation (str_split comma (GROUP_CONCAT accs)) stored.
Proof.
  intros Hperm Hcomma.
  assert (Hlen : length stored < length (str_split comma (GROUP_CONCAT accs))).
  { rewrite length_split_GROUP_CONCAT.
    - rewrite (Permutation_length Hperm).
      rewrite (list_sum_permutation _ _ (Permutation_map (str_count comma) Hperm)).
      pose proof (commas_when_not_comma_free _ Hcomma). lia.
    - intros ->. apply Permutation_nil in Hperm. subst stored.
      apply Hcomma. constructor. }
  split; [exact Hlen|].
  intros H. apply Permutation_length in H. lia.
Qed.

(** ** What the statements find *)

Lemma select_species_where_acc_nil plan d acc :
  select_species_where_acc plan d acc = [] <->
  forall t, taxon_of_accession d acc t -> taxa.rank t <> "species".
Proof.
  unfold select_species_where_acc. rewrite select_species_grouped_nil. split.
  - intros Hnone t (g & Hann & Hacc) Hrank.
    destruct (annotated_in_join rank_is_species d g t Hann) as [ga Hin].
    { apply rank_is_species_true, Hrank. }
    specialize (Hnone _ Hin). simpl in Hnone.
    apply String.eqb_neq in Hnone. contradiction.
  - intros Hnone [[g ga] t] Hin.
    apply in_join_annotated in Hin as [Hann Hrank].
    apply String.eqb_neq. intros Hacc.
    apply (Hnone t); [exists g; split; assumption|].
    apply rank_is_species_true, Hrank.
Qed.

Lemma accessions_of_species_nil d species :
  accessions_of_species d species = [] <->
  forall acc, ~ accession_of_species d species acc.
Proof.
  split.
  - intros E acc H. apply in_accessions_of_species in H. rewrite E in H. destruct H.
  - intros Hnone. destruct (accessions_of_species d species) as [|a l] eqn:E;
      [reflexivity|].
    exfalso. apply (Hnone a). apply in_accessions_of_species. rewrite E. left; reflexivity.
Qed.

(** What the species-rank lookup returns is the name of a species the
    accession is annotated to. *)
Lemma get_species_returned_some filename d plan acc w n :
  fst (get_species_from_genomes_accession_from_db (gateway_over filename d plan) acc w)
  = Returned (Some n) ->
  accession_of_species d n acc.
Proof.
  rewrite get_species_from_genomes_accession_from_db_run. simpl.
  destruct (select_species_where_acc plan d acc) as [|first rest] eqn:E; [discriminate|].
  assert (Hin : In first (select_species_where_acc plan d acc))
    by (rewrite E; left; reflexivity).
  apply select_species_grouped_row in Hin as (g & ga & t & accs & -> & Hin & Hc).
  simpl. intros [= <-].
  apply in_join_annotated in Hin as [Hann Hrank].
  exists g, t. split; [exact Hann|]. split; [apply String.eqb_eq, Hc|].
  split; [apply rank_is_species_true, Hrank | reflexivity].
Qed.

(** What the mapping holds, for any gateway: only the species asked for,
    with the split of the aggregate of its accessions. *)
Lemma get_all_genomes_value self species w (m : gmap string (list string)) k v :
  fst (get_all_genomes_for_a_species_from_db self species w) = Returned m ->
  m !! k = Some v ->
  let accs := aggregated_accessions (plan (cursor self)) (tables (cursor self)) species in
  k = species /\ accs <> [] /\ m = {[ species := v ]} /\
  v = str_split comma (GROUP_CONCAT accs).
Proof.
  rewrite get_all_genomes_for_a_species_from_db_run. simpl.
  destruct (condition (cursor self)); simpl; try discriminate.
  destruct (aggregated_accessions (plan (cursor self)) (tables (cursor self)) species)
    as [|a l]; intros [= <-] Hk.
  - rewrite lookup_empty in Hk. discriminate.
  - destruct (decide (species = k)) as [->|Hne].
    + rewrite lookup_singleton_eq in Hk. inversion Hk.
      split; [reflexivity|]. split; [discriminate|]. split; reflexivity.
    + rewrite lookup_singleton_ne in Hk by exact Hne. discriminate.
Qed.

(** What the listing returns on a healthy engine when an accession of the
    species holds a comma. *)
Lemma get_all_genomes_with_comma filename d plan species w :
  ~ Forall comma_free (accessions_of_species d species) ->
  exists v,
    fst (get_all_genomes_for_a_species_from_db (gateway_over filename d plan) species w)
    = Returned {[ species := v ]} /\
    v = str_split comma (GROUP_CONCAT (aggregated_accessions plan d species)) /\
    length (accessions_of_species d species) < length v /\
    ~ Permutation v (accessions_of_species d species).
Proof.
  intros Hcomma.
  pose proof (aggregated_accessions_permutation plan d species) as Hperm.
  destruct (split_of_commas_is_longer _ _ Hperm Hcomma) as [Hlen Hnot].
  exists (str_split comma (GROUP_CONCAT (aggregated_accessions plan d species))).
  split; [|split; [reflexivity | split; assumption]].
  rewrite get_all_genomes_for_a_species_from_db_run. simpl.
  destruct (aggregated_accessions plan d species) as [|a l] eqn:E; [|reflexivity].
  exfalso. apply Hcomma. apply Permutation_nil in Hperm. rewrite Hperm. constructor.
Qed.

(** What it returns when none of them does. *)
Lemma get_all_genomes_comma_free filename d plan species w :
  Forall comma_free (accessions_of_species d species) ->
  fst (get_all_genomes_for_a_species_from_db (gateway_over filename d plan) species w)
  = Returned match aggregated_accessions plan d species with
             | [] => ∅
             | accs => {[ species := accs ]}
             end.
Proof.
  intros Hfree. apply (aggregated_accessions_comma_free plan) in Hfree.
  rewrite get_all_genomes_for_a_species_from_db_run. simpl.
  destruct (aggregated_accessions plan d species) as [|a l] eqn:E; [reflexivity|].
  rewrite split_GROUP_CONCAT; [reflexivity | discriminate | exact Hfree].
Qed.

(** * The claims *)

(** C1 (as stated, refuted): the value under the species name would be the
    sequence of all accessions annotated to the species.  In [comma_db] the
    species has the two accessions ["GCF_1,GCF_2"] and ["GCF_3"], and the
    call returns three strings, in whatever order the engine scans. *)
Lemma accessions_for_species_splits_an_accession :
  accessions_of_species comma_db "Bacillus subtilis" = ["GCF_1,GCF_2"; "GCF_3"] /\
  fst (get_all_genomes_for_a_species_from_db
         (gateway_over "gambit.db" comma_db in_table_order)
         "Bacillus subtilis" fresh_world)
  = Returned {[ "Bacillus subtilis" := ["GCF_1"; "GCF_2"; "GCF_3"] ]} /\
  ~ Permutation ["GCF_1"; "GCF_2"; "GCF_3"]
      (accessions_of_species comma_db "Bacillus subtilis") /\
  (forall plan, exists v,
     fst (get_all_genomes_for_a_species_from_db
            (gateway_over "gambit.db" comma_db plan) "Bacillus subtilis" fresh_world)
     = Returned {[ "Bacillus subtilis" := v ]} /\
     length v = 3 /\
     ~ Permutation v (accessions_of_species comma_db "Bacillus subtilis")).
Proof.
  split; [reflexivity|]. split; [reflexivity|]. split.
  - intros H. apply Permutation_length in H. vm_compute in H. discriminate H.
  - intros plan.
    assert (Hcomma : ~ Forall comma_free (accessions_of_species comma_db "Bacillus subtilis")).
    { intros H. inversion H as [|? ? Ha _]. vm_compute in Ha. discriminate Ha. }
    destruct (get_all_genomes_with_comma "gambit.db" comma_db plan "Bacillus subtilis"
                fresh_world Hcomma) as (v & Hrun & Hv & _ & Hnot).
    exists v. split; [exact Hrun|]. split; [|exact Hnot].
    pose proof (aggregated_accessions_permutation plan comma_db "Bacillus subtilis")
      as Hperm.
    rewrite Hv, length_split_GROUP_CONCAT.
    + rewrite (Permutation_length Hperm).
      rewrite (list_sum_permutation _ _ (Permutation_map (str_count comma) Hperm)).
      reflexivity.
    + intros E. rewrite E in Hperm. apply Permutation_nil in Hperm. discriminate Hperm.
Qed.

(** C1 (amended): [get_all_genomes_for_a_species_from_db] returns the empty
    mapping when no genome is annotated to the species at species rank.
    Otherwise, provided none of the accessions annotated to the species
    holds a comma, it returns the mapping with the one key [species] whose
    value holds exactly those accessions, each as often as it is annotated,
    in the order in which the engine aggregates them; the statement has no
    ORDER BY, so that order is the engine's.  When an accession holds a
    comma the value has more strings than the species has accessions.  On
    the database of the scenario the value is an arrangement of
    ["GCF_000001"] and ["GCF_000002"], in this order when the engine scans
    the tables in insertion order. *)
Theorem get_all_genomes_for_a_species_from_db_mapping filename d plan species w :
  let stored := accessions_of_species d species in
  let accs := aggregated_accessions plan d species in
  let result :=
    fst (get_all_genomes_for_a_species_from_db (gateway_over filename d plan) species w) in
  (forall acc, In acc stored <-> accession_of_species d species acc) /\
  Permutation accs stored /\
  (stored = [] -> result = Returned ∅) /\
  (Forall comma_free stored ->
   result = Returned match accs with
                     | [] => ∅
                     | _ => {[ species := accs ]}
                     end) /\
  (~ Forall comma_free stored ->
   exists v, result = Returned {[ species := v ]} /\
             length stored < length v /\ ~ Permutation v stored) /\
  (exists v,
     fst (get_all_genomes_for_a_species_from_db
            (gateway_over filename ecoli_db plan) "Escherichia coli" w)
     = Returned {[ "Escherichia coli" := v ]} /\
     Permutation v ["GCF_000001"; "GCF_000002"]) /\
  fst (get_all_genomes_for_a_species_from_db
         (gateway_over filename ecoli_db in_table_order) "Escherichia coli" w)
  = Returned {[ "Escherichia coli" := ["GCF_000001"; "GCF_000002"] ]}.
Proof.
  cbv zeta.
  pose proof (aggregated_accessions_permutation plan d species) as Hperm.
  split; [intros acc; apply in_accessions_of_species|].
  split; [exact Hperm|]. split; [|split; [|split; [|split]]].
  - intros Hnil. rewrite get_all_genomes_for_a_species_from_db_run. simpl.
    rewrite (proj2 (aggregated_accessions_nil plan d species) Hnil). reflexivity.
  - intros Hfree. rewrite (get_all_genomes_comma_free _ _ _ _ _ Hfree).
    destruct (aggregated_accessions plan d species); reflexivity.
  - intros Hcomma.
    destruct (get_all_genomes_with_comma filename d plan species w Hcomma)
      as (v & Hrun & _ & Hlen & Hnot).
    exists v. auto.
  - assert (Hfree : Forall comma_free (accessions_of_species ecoli_db "Escherichia coli"))
      by (repeat constructor).
    pose proof (aggregated_accessions_permutation plan ecoli_db "Escherichia coli")
      as Hp.
    exists (aggregated_accessions plan ecoli_db "Escherichia coli").
    split; [|exact Hp].
    rewrite (get_all_genomes_comma_free _ _ _ _ _ Hfree).
    destruct (aggregated_accessions plan ecoli_db "Escherichia coli") eqn:E;
      [|reflexivity].
    apply Permutation_nil in Hp. discriminate Hp.
  - reflexivity.
Qed.

Lemma get_all_genomes_for_a_species_from_db_mapping_witness :
  Forall comma_free (accessions_of_species ecoli_db "Escherichia coli") /\
  fst (get_all_genomes_for_a_species_from_db
         (gateway_over "gambit.db" ecoli_db in_table_order)
         "Escherichia coli" fresh_world)
  = Returned {[ "Escherichia coli" := ["GCF_000001"; "GCF_000002"] ]}.
Proof.
  assert (Hfree : Forall comma_free (accessions_of_species ecoli_db "Escherichia coli"))
    by (repeat constructor).
  split; [exact Hfree|].
  pose proof (get_all_genomes_for_a_species_from_db_mapping
                "gambit.db" ecoli_db in_table_order "Escherichia coli" fresh_world) as H.
  cbv zeta in H. destruct H as (_ & _ & _ & H & _).
  exact (H Hfree).
Defined.

(** C2: on every accession, [find_species_from_accession] returns the taxon
    name in the first row that the engine yields for the three-way join
    filtered by [refseq_acc] alone, and the string ["Unknown"] when the
    join has no such row.  The rows are the taxa annotated to the
    accession, at any rank, one per annotation; the statement has no
    ORDER BY, so which of them is first is the engine's choice.  The call
    returns ["Unknown"] when no taxon is annotated to the accession, and
    otherwise the name of a taxon that is; when all of them bear one name,
    that name. *)
Theorem find_species_from_accession_first_match filename d plan closest_accession w :
  let names := fetched_taxon_names plan d closest_accession in
  let result :=
    fst (find_species_from_accession (gateway_over filename d plan) closest_accession w) in
  select_name_where_acc plan d closest_accession = map (fun n => [n]) names /\
  Permutation names (taxon_names_of_accession d closest_accession) /\
  (forall n, In n names <->
             exists t, taxon_of_accession d closest_accession t /\ taxa.name t = n) /\
  result = Returned match names with
                    | [] => "Unknown"
                    | first :: _ => first
                    end /\
  ((forall t, ~ taxon_of_accession d closest_accession t) ->
   result = Returned "Unknown") /\
  ((exists t, taxon_of_accession d closest_accession t) ->
   exists t, taxon_of_accession d closest_accession t /\
             result = Returned (taxa.name t)) /\
  (forall n,
     (exists t, taxon_of_accession d closest_accession t) ->
     (forall t, taxon_of_accession d closest_accession t -> taxa.name t = n) ->
     result = Returned n).
Proof.
  cbv zeta.
  assert (Hrun :
    fst (find_species_from_accession (gateway_over filename d plan) closest_accession w)
    = Returned match fetched_taxon_names plan d closest_accession with
               | [] => "Unknown"
               | first :: _ => first
               end).
  { rewrite find_species_from_accession_run. simpl.
    destruct (fetched_taxon_names plan d closest_accession); reflexivity. }
  assert (Hsome :
    (exists t, taxon_of_accession d closest_accession t) ->
    exists t, taxon_of_accession d closest_accession t /\
      fst (find_species_from_accession (gateway_over filename d plan) closest_accession w)
      = Returned (taxa.name t)).
  { intros [t Ht]. rewrite Hrun.
    destruct (fetched_taxon_names plan d closest_accession) as [|first rest] eqn:E.
    - exfalso.
      assert (Hin : In (taxa.name t) (fetched_taxon_names plan d closest_accession))
        by (apply in_fetched_taxon_names; eauto).
      rewrite E in Hin. destruct Hin.
    - assert (Hin : In first (fetched_taxon_names plan d closest_accession))
        by (rewrite E; left; reflexivity).
      apply in_fetched_taxon_names in Hin as (t' & Ht' & <-).
      exists t'. split; [exact Ht' | reflexivity]. }
  split; [apply select_name_where_acc_rows|].
  split; [apply fetched_taxon_names_permutation|].
  split; [intros n; apply in_fetched_taxon_names|].
  split; [exact Hrun|]. split; [|split; [exact Hsome|]].
  - intros Hnone. rewrite Hrun.
    destruct (fetched_taxon_names plan d closest_accession) as [|first rest] eqn:E;
      [reflexivity|].
    exfalso.
    assert (Hin : In first (fetched_taxon_names plan d closest_accession))
      by (rewrite E; left; reflexivity).
    apply in_fetched_taxon_names in Hin as (t & Ht & _). exact (Hnone t Ht).
  - intros n Hex Hall. destruct (Hsome Hex) as (t & Ht & ->).
    rewrite (Hall t Ht). reflexivity.
Qed.

(** Which row is first is the engine's choice: on a genome annotated to a
    genus and to a species, the two scan orders give the two names. *)
Lemma find_species_from_accession_follows_the_scan :
  fst (find_species_from_accession
         (gateway_over "gambit.db" two_taxa_db in_table_order) "GCF_000005" fresh_world)
  = Returned "Escherichia" /\
  fst (find_species_from_accession
         (gateway_over "gambit.db" two_taxa_db in_reverse_order) "GCF_000005" fresh_world)
  = Returned "Escherichia coli".
Proof. split; reflexivity. Qed.


(** C4: when the engine answers [execute] or a fetch with a database error,
    [get_species_from_genomes_accession_from_db] and
    [get_all_genomes_for_a_species_from_db] catch it, log one line that
    starts with the name of the method and ends with the message of the
    error, and end the process with status 1; nothing is returned or
    raised to the caller. *)
Theorem database_error_is_logged_and_exits self genome_accession species w e :
  db_error (cursor self) = Some e ->
  let by_accession :=
    get_species_from_genomes_accession_from_db self genome_accession w in
  let by_species := get_all_genomes_for_a_species_from_db self species w in
  fst by_accession = Exited 1 /\
  logged (snd by_accession)
  = logged w ++
    [("get_species_from_genomes_accession_from_db - Database query error: " ++ e)%string] /\
  fst by_species = Exited 1 /\
  logged (snd by_species)
  = logged w ++
    [("get_all_genomes_for_a_species_from_db - Database query error: " ++ e)%string] /\
  logged (snd by_accession) <> logged (snd by_species) /\
  (1 <> 0)%Z.
Proof.
  intros He by_accession by_species. subst by_accession by_species.
  rewrite get_species_from_genomes_accession_from_db_run,
    get_all_genomes_for_a_species_from_db_run.
  unfold db_error in He.
  assert (Hlines :
    logged w ++
      [("get_species_from_genomes_accession_from_db - Database query error: " ++ e)%string]
    <> logged w ++
      [("get_all_genomes_for_a_species_from_db - Database query error: " ++ e)%string]).
  { intros H. apply app_inv_head in H. simpl in H. discriminate H. }
  destruct (condition (cursor self)) as [|e'|e']; inversion He; subst; simpl;
    repeat split; try reflexivity; try exact Hlines; discriminate.
Qed.

Lemma database_error_is_logged_and_exits_witness :
  let self := {| database_filename := "gambit.db";
                 cursor := {| tables := ecoli_db;
                              plan := in_table_order;
                              condition := ExecuteError "no such table: genomes" |} |} in
  db_error (cursor self) = Some "no such table: genomes" /\
  fst (get_species_from_genomes_accession_from_db self "GCF_000001" fresh_world)
  = Exited 1 /\
  fst (get_all_genomes_for_a_species_from_db self "Escherichia coli" fresh_world)
  = Exited 1.
Proof.
  intros self.
  assert (He : db_error (cursor self) = Some "no such table: genomes") by reflexivity.
  split; [exact He|].
  pose proof (database_error_is_logged_and_exits
                self "GCF_000001" "Escherichia coli" fresh_world _ He) as H.
  simpl in H. destruct H as (H1 & _ & H2 & _). split; [exact H1 | exact H2].
Defined.

(** C5: [find_species_from_accession] catches nothing: a database error of
    the engine leaves the call as a raised exception, nothing is logged and
    the process does not exit, whereas the species-rank lookup on the same
    gateway and accession ends the process. *)
Theorem find_species_from_accession_raises self closest_accession w e :
  db_error (cursor self) = Some e ->
  fst (find_species_from_accession self closest_accession w)
  = Raised (sqlite3_Error e) /\
  logged (snd (find_species_from_accession self closest_accession w)) = logged w /\
  fst (get_species_from_genomes_accession_from_db self closest_accession w)
  = Exited 1.
Proof.
  intros He. unfold db_error in He.
  rewrite find_species_from_accession_run,
    get_species_from_genomes_accession_from_db_run.
  destruct (condition (cursor self)) as [|e'|e']; inversion He; subst; simpl;
    repeat split; reflexivity.
Qed.

Lemma find_species_from_accession_raises_witness :
  let self := {| database_filename := "gambit.db";
                 cursor := {| tables := ecoli_db;
                              plan := in_table_order;
                              condition := FetchError "database disk image is malformed" |} |} in
  db_error (cursor self) = Some "database disk image is malformed" /\
  fst (find_species_from_accession self "GCF_000001" fresh_world)
  = Raised (sqlite3_Error "database disk image is malformed").
Proof.
  intros self.
  assert (He : db_error (cursor self) = Some "database disk image is malformed")
    by reflexivity.
  split; [exact He|].
  exact (proj1 (find_species_from_accession_raises self "GCF_000001" fresh_world _ He)).
Defined.

(** C6: the constructor asks the engine for a cursor on the given location
    and keeps it with the file name; when connecting raises a database
    error it logs one line and ends the process with status 1, so that no
    exception reaches the caller. *)
Theorem init_connects_or_exits sqlite3_connect database_filename w :
  match sqlite3_connect database_filename with
  | inr c =>
      __init__ sqlite3_connect database_filename w
      = (Returned {| database_filename := database_filename; cursor := c |},
         {| pending := []; logged := logged w |})
  | inl (sqlite3_Error e) =>
      __init__ sqlite3_connect database_filename w
      = (Exited 1,
         {| pending := pending w;
            logged := logged w ++ [("Error connecting to the database: " ++ e)%string] |})
      /\ (1 <> 0)%Z
  | inl x => __init__ sqlite3_connect database_filename w = (Raised x, w)
  end.
Proof.
  unfold __init__, connect_to_db. run_method.
  destruct (sqlite3_connect database_filename) as [[e|e|e|e]|c]; simpl;
    try reflexivity.
  split; [reflexivity | discriminate].
Qed.

(** C7 (as stated, refuted): splitting the aggregated string would recover
    the stored accessions also when one of them holds a comma.  The
    accession ["GCF_1,GCF_2"] comes back as two strings. *)
Lemma comma_in_accession_is_not_round_tripped :
  str_split comma (GROUP_CONCAT ["GCF_1,GCF_2"; "GCF_3"]) = ["GCF_1"; "GCF_2"; "GCF_3"] /\
  (exists m,
     fst (get_all_genomes_for_a_species_from_db
            (gateway_over "gambit.db" comma_db in_table_order)
            "Bacillus subtilis" fresh_world)
     = Returned m /\
     m !! "Bacillus subtilis" = Some ["GCF_1"; "GCF_2"; "GCF_3"] /\
     m !! "Bacillus subtilis"
     <> Some (accessions_of_species comma_db "Bacillus subtilis") /\
     ~ Permutation ["GCF_1"; "GCF_2"; "GCF_3"]
         (accessions_of_species comma_db "Bacillus subtilis")).
Proof.
  split; [reflexivity|].
  eexists. split; [reflexivity|]. split; [reflexivity|]. split.
  - vm_compute. discriminate.
  - intros H. apply Permutation_length in H. vm_compute in H. discriminate H.
Qed.

(** C7 (amended): for every species name, with or without a comma, that
    has accessions at species rank: when none of them holds a comma,
    splitting the aggregated string recovers exactly the aggregated
    accessions, which are the stored ones in the order in which the engine
    aggregates them, and they are what
    [get_all_genomes_for_a_species_from_db] returns under the name; when
    one of them holds a comma, the split differs from what was aggregated
    and the returned list has more strings than there are accessions. *)
Theorem comma_free_accessions_round_trip filename d plan species w :
  let stored := accessions_of_species d species in
  let accs := aggregated_accessions plan d species in
  let result :=
    fst (get_all_genomes_for_a_species_from_db (gateway_over filename d plan) species w) in
  stored <> [] ->
  Permutation accs stored /\
  (Forall comma_free stored ->
   str_split comma (GROUP_CONCAT accs) = accs /\
   result = Returned {[ species := accs ]}) /\
  (~ Forall comma_free stored ->
   str_split comma (GROUP_CONCAT accs) <> accs /\
   exists v, result = Returned {[ species := v ]} /\
             length stored < length v /\ ~ Permutation v stored).
Proof.
  cbv zeta. intros Hne.
  pose proof (aggregated_accessions_permutation plan d species) as Hperm.
  assert (Hne' : aggregated_accessions plan d species <> []).
  { intros E. apply Hne. apply (aggregated_accessions_nil plan), E. }
  split; [exact Hperm|]. split.
  - intros Hfree.
    assert (Hsplit := split_GROUP_CONCAT _ Hne'
                        (aggregated_accessions_comma_free plan _ _ Hfree)).
    split; [exact Hsplit|].
    rewrite (get_all_genomes_comma_free _ _ _ _ _ Hfree).
    destruct (aggregated_accessions plan d species); [congruence | reflexivity].
  - intros Hcomma. split.
    + intros E. destruct (split_of_commas_is_longer _ _ Hperm Hcomma) as [_ Hnot].
      apply Hnot. rewrite E. exact Hperm.
    + destruct (get_all_genomes_with_comma filename d plan species w Hcomma)
        as (v & Hrun & _ & Hlen & Hnot).
      exists v. auto.
Qed.

Lemma comma_free_accessions_round_trip_witness :
  accessions_of_species comma_name_db "Bacillus, sp." = ["GCF_7"; "GCF_8"] /\
  fst (get_all_genomes_for_a_species_from_db
         (gateway_over "gambit.db" comma_name_db in_table_order)
         "Bacillus, sp." fresh_world)
  = Returned {[ "Bacillus, sp." := ["GCF_7"; "GCF_8"] ]}.
Proof.
  split; [reflexivity|].
  assert (Hne : accessions_of_species comma_name_db "Bacillus, sp." <> [])
    by discriminate.
  assert (Hfree : Forall comma_free (accessions_of_species comma_name_db "Bacillus, sp."))
    by (repeat constructor).
  pose proof (comma_free_accessions_round_trip
                "gambit.db" comma_name_db in_table_order "Bacillus, sp." fresh_world Hne)
    as H.
  cbv zeta in H. destruct H as (_ & H & _).
  exact (proj2 (H Hfree)).
Defined.

(** C8: each of the three read operations, called a second time on the
    same gateway with the same argument in the world the first call left,
    ends as the first call did. *)
Theorem repeated_reads_agree self closest_accession genome_accession species w :
  (let first := find_species_from_accession self closest_accession w in
   fst (find_species_from_accession self closest_accession (snd first))
   = fst first) /\
  (let first := get_species_from_genomes_accession_from_db self genome_accession w in
   fst (get_species_from_genomes_accession_from_db self genome_accession (snd first))
   = fst first) /\
  (let first := get_all_genomes_for_a_species_from_db self species w in
   fst (get_all_genomes_for_a_species_from_db self species (snd first))
   = fst first).
Proof.
  split; [|split]; cbv zeta.
  - apply find_species_from_accession_outcome.
  - apply get_species_from_genomes_accession_from_db_outcome.
  - apply get_all_genomes_for_a_species_from_db_outcome.
Qed.

(** C9: whenever [get_all_genomes_for_a_species_from_db] returns a mapping
    that holds a key, the list under that key has at least one element. *)
Theorem returned_accession_lists_are_nonempty self species w
    (m : gmap string (list string)) k v :
  fst (get_all_genomes_for_a_species_from_db self species w) = Returned m ->
  m !! k = Some v ->
  v <> [] /\ (0 < length v)%nat.
Proof.
  intros Hrun Hk.
  apply get_all_genomes_returned in Hrun as (w0 & w1 & Hrows).
  assert (Hv : v <> []).
  { apply (dict_of_rows_values_nonempty _ _ _ _ _) with (2 := Hrows) (3 := Hk).
    intros k' v'. rewrite lookup_empty. discriminate. }
  split; [exact Hv|]. destruct v; [congruence | simpl; lia].
Qed.

Lemma returned_accession_lists_are_nonempty_witness :
  exists m v,
    fst (get_all_genomes_for_a_species_from_db
           (gateway_over "gambit.db" ecoli_db in_table_order)
           "Escherichia coli" fresh_world)
    = Returned m /\
    m !! "Escherichia coli" = Some v /\ v <> [].
Proof.
  exists {[ "Escherichia coli" := ["GCF_000001"; "GCF_000002"] ]},
    ["GCF_000001"; "GCF_000002"].
  assert (Hrun :
    fst (get_all_genomes_for_a_species_from_db
           (gateway_over "gambit.db" ecoli_db in_table_order)
           "Escherichia coli" fresh_world)
    = Returned {[ "Escherichia coli" := ["GCF_000001"; "GCF_000002"] ]})
    by reflexivity.
  assert (Hk : ({[ "Escherichia coli" := ["GCF_000001"; "GCF_000002"] ]}
                : gmap string (list string)) !! "Escherichia coli"
               = Some ["GCF_000001"; "GCF_000002"]) by reflexivity.
  split; [exact Hrun|]. split; [exact Hk|].
  exact (proj1 (returned_accession_lists_are_nonempty _ _ _ _ _ _ Hrun Hk)).
Defined.

(** C10: there is a database in which an accession is present in [genomes]
    and annotated to a taxon named ["Unknown"]; for it
    [find_species_from_accession] returns ["Unknown"], which is also what
    it returns on a database that does not hold the accession. *)
Theorem unknown_does_not_signal_absence :
  exists d acc,
    (exists g t, annotated d g t /\ genomes.refseq_acc g = acc /\
                 taxa.name t = "Unknown") /\
    (forall filename plan w,
       fst (find_species_from_accession (gateway_over filename d plan) acc w)
       = Returned "Unknown") /\
    (forall filename plan w,
       (forall g, In g (tbl_genomes empty_db) -> genomes.refseq_acc g <> acc) /\
       fst (find_species_from_accession (gateway_over filename empty_db plan) acc w)
       = Returned "Unknown").
Proof.
  exists unknown_db, "GCF_000009". split; [|split].
  - exists {| genomes.id := 1; genomes.refseq_acc := "GCF_000009" |},
      {| taxa.id := 3; taxa.name := "Unknown"; taxa.rank := "genus" |}.
    split; [|split; reflexivity].
    split; [left; reflexivity|]. split; [left; reflexivity|].
    exists {| genome_annotations.genome_id := 1; genome_annotations.taxon_id := 3 |}.
    split; [left; reflexivity | split; reflexivity].
  - intros filename plan w. rewrite find_species_from_accession_run. simpl.
    pose proof (fetched_taxon_names_permutation plan unknown_db "GCF_000009") as Hperm.
    destruct (fetched_taxon_names plan unknown_db "GCF_000009") as [|n rest];
      [reflexivity|].
    assert (Hin : In n (taxon_names_of_accession unknown_db "GCF_000009"))
      by (apply (Permutation_in _ Hperm); left; reflexivity).
    destruct Hin as [<-|[]]. reflexivity.
  - intros filename plan w. split; [intros g []|].
    rewrite find_species_from_accession_run. simpl.
    pose proof (fetched_taxon_names_permutation plan empty_db "GCF_000009") as Hperm.
    apply Permutation_sym, Permutation_nil in Hperm. rewrite Hperm. reflexivity.
Qed.

(** * Further properties of the methods *)

(** ** On a healthy engine *)

(** X1: when the engine answers every call, each of the three read methods
    returns: the subscripts [species_name[0]], [results[0][0]], [row[0]]
    and [row[1]] are always in range, nothing is logged and the process
    does not exit. *)
Theorem healthy_engine_reads_return
    filename d plan closest_accession genome_accession species w :
  let self := gateway_over filename d plan in
  let broad := find_species_from_accession self closest_accession w in
  let by_rank := get_species_from_genomes_accession_from_db self genome_accession w in
  let listed := get_all_genomes_for_a_species_from_db self species w in
  (exists n, fst broad = Returned n) /\ logged (snd broad) = logged w /\
  (exists o, fst by_rank = Returned o) /\ logged (snd by_rank) = logged w /\
  (exists m, fst listed = Returned m) /\ logged (snd listed) = logged w.
Proof.
  cbv zeta.
  rewrite find_species_from_accession_run,
    get_species_from_genomes_accession_from_db_run,
    get_all_genomes_for_a_species_from_db_run. simpl.
  destruct (fetched_taxon_names plan d closest_accession); simpl;
    repeat split; eauto.
Qed.

(** ** How the lookups compose *)

(** X2: the species that the species-rank lookup returns for an accession
    lists that accession: asked for that species,
    [get_all_genomes_for_a_species_from_db] returns a mapping whose list
    holds the accession, provided the accessions of the species hold no
    comma. *)
Theorem species_of_accession_lists_the_accession
    filename d plan genome_accession species w w' :
  fst (get_species_from_genomes_accession_from_db
         (gateway_over filename d plan) genome_accession w) = Returned (Some species) ->
  Forall comma_free (accessions_of_species d species) ->
  exists accs,
    fst (get_all_genomes_for_a_species_from_db (gateway_over filename d plan) species w')
    = Returned {[ species := accs ]} /\
    In genome_accession accs.
Proof.
  intros Hsome Hfree. apply get_species_returned_some in Hsome.
  apply (in_aggregated_accessions plan) in Hsome.
  exists (aggregated_accessions plan d species). split; [|exact Hsome].
  rewrite (get_all_genomes_comma_free _ _ _ _ _ Hfree).
  destruct (aggregated_accessions plan d species) as [|a l] eqn:E; [destruct Hsome|].
  reflexivity.
Qed.

Lemma species_of_accession_lists_the_accession_witness :
  exists accs,
    fst (get_all_genomes_for_a_species_from_db
           (gateway_over "gambit.db" ecoli_db in_table_order)
           "Escherichia coli" fresh_world)
    = Returned {[ "Escherichia coli" := accs ]} /\
    In "GCF_000002" accs.
Proof.
  refine (species_of_accession_lists_the_accession
            "gambit.db" ecoli_db in_table_order "GCF_000002" "Escherichia coli"
            fresh_world fresh_world _ _).
  - reflexivity.
  - repeat constructor.
Defined.

(** X3: every accession annotated to a species at species rank has a
    species: for it the species-rank lookup never returns [None], it returns
    the name of a species the accession is annotated to (the species asked
    for, or another one of the same genome). *)
Theorem listed_accession_has_a_species filename d plan species acc w :
  In acc (accessions_of_species d species) ->
  exists n,
    fst (get_species_from_genomes_accession_from_db (gateway_over filename d plan) acc w)
    = Returned (Some n) /\
    accession_of_species d n acc.
Proof.
  intros Hin. apply in_accessions_of_species in Hin as (g & t & Hann & Hacc & Hrank & _).
  destruct (fst (get_species_from_genomes_accession_from_db
                   (gateway_over filename d plan) acc w)) as [[n|]|x|s] eqn:E.
  - exists n. split; [reflexivity|]. exact (get_species_returned_some _ _ _ _ _ _ E).
  - exfalso. rewrite get_species_from_genomes_accession_from_db_run in E. simpl in E.
    destruct (select_species_where_acc plan d acc) as [|first rest] eqn:Erows.
    + pose proof (proj1 (select_species_where_acc_nil _ _ _) Erows) as Hnone.
      apply (Hnone t); [exists g; split; assumption | exact Hrank].
    + assert (Hfirst : In first (select_species_where_acc plan d acc))
        by (rewrite Erows; left; reflexivity).
      apply select_species_grouped_row in Hfirst as (? & ? & ? & ? & -> & _).
      discriminate E.
  - exfalso. rewrite get_species_from_genomes_accession_from_db_run in E.
    discriminate E.
  - exfalso. rewrite get_species_from_genomes_accession_from_db_run in E.
    discriminate E.
Qed.

Lemma listed_accession_has_a_species_witness :
  exists n,
    fst (get_species_from_genomes_accession_from_db
           (gateway_over "gambit.db" comma_db in_table_order) "GCF_3" fresh_world)
    = Returned (Some n) /\
    accession_of_species comma_db n "GCF_3".
Proof.
  apply (listed_accession_has_a_species
           "gambit.db" comma_db in_table_order "Bacillus subtilis").
  right. left. reflexivity.
Defined.

(** X10: when the species-rank lookup returns a species for an accession,
    the broad lookup on the same accession does not take its not-found
    branch: it returns the name of a taxon the accession is annotated to
    (of whatever rank comes first). *)
Theorem species_found_implies_taxon_found filename d plan acc n w w' :
  fst (get_species_from_genomes_accession_from_db (gateway_over filename d plan) acc w)
  = Returned (Some n) ->
  exists t,
    taxon_of_accession d acc t /\
    fst (find_species_from_accession (gateway_over filename d plan) acc w')
    = Returned (taxa.name t).
Proof.
  intros Hsome. apply get_species_returned_some in Hsome.
  destruct Hsome as (g & t & Hann & Hacc & _ & Hname).
  assert (Hin : In n (fetched_taxon_names plan d acc)).
  { apply in_fetched_taxon_names. exists t. split; [|exact Hname].
    exists g. split; assumption. }
  rewrite find_species_from_accession_run. simpl.
  destruct (fetched_taxon_names plan d acc) as [|first rest] eqn:E; [destruct Hin|].
  assert (Hfirst : In first (fetched_taxon_names plan d acc))
    by (rewrite E; left; reflexivity).
  apply in_fetched_taxon_names in Hfirst as (t' & Ht' & <-).
  exists t'. split; [exact Ht' | reflexivity].
Qed.

Lemma species_found_implies_taxon_found_witness :
  exists t,
    taxon_of_accession ecoli_db "GCF_000001" t /\
    fst (find_species_from_accession
           (gateway_over "gambit.db" ecoli_db in_table_order) "GCF_000001" fresh_world)
    = Returned (taxa.name t).
Proof.
  refine (species_found_implies_taxon_found
            "gambit.db" ecoli_db in_table_order "GCF_000001" "Escherichia coli"
            fresh_world fresh_world _).
  reflexivity.
Defined.

(** ** When nothing is found *)

(** X8: on a healthy engine the species-rank lookup returns [None] exactly
    when no taxon of rank ["species"] is annotated to the accession: an
    absent accession, a genome without annotation, an annotation to a
    missing taxon and an annotation at another rank all give [None]. *)
Theorem species_lookup_none_iff filename d plan genome_accession w :
  fst (get_species_from_genomes_accession_from_db
         (gateway_over filename d plan) genome_accession w) = Returned None
  <->
  (forall t, taxon_of_accession d genome_accession t -> taxa.rank t <> "species").
Proof.
  rewrite <- (select_species_where_acc_nil plan).
  rewrite get_species_from_genomes_accession_from_db_run. simpl.
  destruct (select_species_where_acc plan d genome_accession) as [|first rest] eqn:E.
  - split; reflexivity.
  - assert (Hfirst : In first (select_species_where_acc plan d genome_accession))
      by (rewrite E; left; reflexivity).
    apply select_species_grouped_row in Hfirst as (? & ? & ? & ? & -> & _).
    simpl. split; discriminate.
Qed.

(** X9: on a healthy engine [get_all_genomes_for_a_species_from_db] returns
    the empty mapping exactly when no genome is annotated, at rank
    ["species"], to a taxon of the given name; a taxon of that name at
    another rank does not count. *)
Theorem empty_mapping_iff filename d plan species w :
  fst (get_all_genomes_for_a_species_from_db (gateway_over filename d plan) species w)
  = Returned ∅
  <->
  (forall acc, ~ accession_of_species d species acc).
Proof.
  rewrite <- accessions_of_species_nil, <- (aggregated_accessions_nil plan).
  rewrite get_all_genomes_for_a_species_from_db_run. simpl.
  destruct (aggregated_accessions plan d species) as [|a l].
  - split; reflexivity.
  - split; [|discriminate]. intros H. exfalso.
    apply (f_equal (fun o : outcome (gmap string (list string)) =>
                      match o with Returned m => m !! species | _ => None end)) in H.
    rewrite lookup_singleton_eq, lookup_empty in H. discriminate H.
Qed.

(** ** What the returned mapping holds *)

(** X4: whatever the tables hold, the mapping that
    [get_all_genomes_for_a_species_from_db] returns has no key but the
    species asked for, so it holds at most one entry. *)
Theorem returned_mapping_has_only_the_species_key self species w
    (m : gmap string (list string)) k v :
  fst (get_all_genomes_for_a_species_from_db self species w) = Returned m ->
  m !! k = Some v ->
  k = species /\ m = {[ species := v ]}.
Proof.
  intros Hrun Hk.
  destruct (get_all_genomes_value _ _ _ _ _ _ Hrun Hk) as (Hkey & _ & Hm & _).
  split; assumption.
Qed.

Lemma returned_mapping_has_only_the_species_key_witness :
  exists m : gmap string (list string),
    fst (get_all_genomes_for_a_species_from_db
           (gateway_over "gambit.db" ecoli_db in_table_order)
           "Escherichia coli" fresh_world)
    = Returned m /\
    m = {[ "Escherichia coli" := ["GCF_000001"; "GCF_000002"] ]}.
Proof.
  exists {[ "Escherichia coli" := ["GCF_000001"; "GCF_000002"] ]}.
  assert (Hrun :
    fst (get_all_genomes_for_a_species_from_db
           (gateway_over "gambit.db" ecoli_db in_table_order)
           "Escherichia coli" fresh_world)
    = Returned {[ "Escherichia coli" := ["GCF_000001"; "GCF_000002"] ]})
    by reflexivity.
  assert (Hk : ({[ "Escherichia coli" := ["GCF_000001"; "GCF_000002"] ]}
                : gmap string (list string)) !! "Escherichia coli"
               = Some ["GCF_000001"; "GCF_000002"]) by reflexivity.
  split; [exact Hrun|].
  exact (proj2 (returned_mapping_has_only_the_species_key _ _ _ _ _ _ Hrun Hk)).
Defined.

(** X5: no character of the aggregate is lost by the split: the returned
    list, joined again with commas, is the string that the engine
    aggregated, which is the comma-joined string of the accessions
    annotated to the species, in the order in which the engine scanned
    them, also when an accession holds a comma. *)
Theorem returned_list_rejoins_to_the_aggregate self species w
    (m : gmap string (list string)) k v :
  fst (get_all_genomes_for_a_species_from_db self species w) = Returned m ->
  m !! k = Some v ->
  let accs := aggregated_accessions (plan (cursor self)) (tables (cursor self)) species in
  String.concat "," v = GROUP_CONCAT accs /\
  Permutation accs (accessions_of_species (tables (cursor self)) species).
Proof.
  intros Hrun Hk accs. subst accs.
  destruct (get_all_genomes_value _ _ _ _ _ _ Hrun Hk) as (_ & _ & _ & ->).
  split; [apply (concat_str_split comma) | apply aggregated_accessions_permutation].
Qed.

Lemma returned_list_rejoins_to_the_aggregate_witness :
  String.concat "," ["GCF_1"; "GCF_2"; "GCF_3"]
  = GROUP_CONCAT (aggregated_accessions in_table_order comma_db "Bacillus subtilis").
Proof.
  assert (Hrun :
    fst (get_all_genomes_for_a_species_from_db
           (gateway_over "gambit.db" comma_db in_table_order)
           "Bacillus subtilis" fresh_world)
    = Returned {[ "Bacillus subtilis" := ["GCF_1"; "GCF_2"; "GCF_3"] ]})
    by reflexivity.
  assert (Hk : ({[ "Bacillus subtilis" := ["GCF_1"; "GCF_2"; "GCF_3"] ]}
                : gmap string (list string)) !! "Bacillus subtilis"
               = Some ["GCF_1"; "GCF_2"; "GCF_3"]) by reflexivity.
  exact (proj1 (returned_list_rejoins_to_the_aggregate _ _ _ _ _ _ Hrun Hk)).
Defined.

(** X6: no string of a returned list holds a comma. *)
Theorem returned_strings_hold_no_comma self species w
    (m : gmap string (list string)) k v :
  fst (get_all_genomes_for_a_species_from_db self species w) = Returned m ->
  m !! k = Some v ->
  Forall comma_free v.
Proof.
  intros Hrun Hk.
  destruct (get_all_genomes_value _ _ _ _ _ _ Hrun Hk) as (_ & _ & _ & ->).
  apply str_split_pieces.
Qed.

Lemma returned_strings_hold_no_comma_witness :
  Forall comma_free ["GCF_1"; "GCF_2"; "GCF_3"].
Proof.
  assert (Hrun :
    fst (get_all_genomes_for_a_species_from_db
           (gateway_over "gambit.db" comma_db in_table_order)
           "Bacillus subtilis" fresh_world)
    = Returned {[ "Bacillus subtilis" := ["GCF_1"; "GCF_2"; "GCF_3"] ]})
    by reflexivity.
  assert (Hk : ({[ "Bacillus subtilis" := ["GCF_1"; "GCF_2"; "GCF_3"] ]}
                : gmap string (list string)) !! "Bacillus subtilis"
               = Some ["GCF_1"; "GCF_2"; "GCF_3"]) by reflexivity.
  exact (returned_strings_hold_no_comma _ _ _ _ _ _ Hrun Hk).
Defined.

(** X7: a returned list has one string per annotation of the species and
    one more for every comma in an accession; it is never shorter than the
    list of accessions. *)
Theorem returned_list_length self species w
    (m : gmap string (list string)) k v :
  fst (get_all_genomes_for_a_species_from_db self species w) = Returned m ->
  m !! k = Some v ->
  let accs := accessions_of_species (tables (cursor self)) species in
  length v = length accs + list_sum (map (str_count comma) accs) /\
  length accs <= length v.
Proof.
  intros Hrun Hk accs. subst accs.
  destruct (get_all_genomes_value _ _ _ _ _ _ Hrun Hk) as (_ & Hne & _ & ->).
  pose proof (aggregated_accessions_permutation
                (plan (cursor self)) (tables (cursor self)) species) as Hperm.
  rewrite (length_split_GROUP_CONCAT _ Hne).
  rewrite (Permutation_length Hperm).
  rewrite (list_sum_permutation _ _ (Permutation_map (str_count comma) Hperm)).
  lia.
Qed.

Lemma returned_list_length_witness :
  length ["GCF_1"; "GCF_2"; "GCF_3"]
  = length (accessions_of_species comma_db "Bacillus subtilis")
    + list_sum (map (str_count comma)
                  (accessions_of_species comma_db "Bacillus subtilis")).
Proof.
  assert (Hrun :
    fst (get_all_genomes_for_a_species_from_db
           (gateway_over "gambit.db" comma_db in_table_order)
           "Bacillus subtilis" fresh_world)
    = Returned {[ "Bacillus subtilis" := ["GCF_1"; "GCF_2"; "GCF_3"] ]})
    by reflexivity.
  assert (Hk : ({[ "Bacillus subtilis" := ["GCF_1"; "GCF_2"; "GCF_3"] ]}
                : gmap string (list string)) !! "Bacillus subtilis"
               = Some ["GCF_1"; "GCF_2"; "GCF_3"]) by reflexivity.
  exact (proj1 (returned_list_length _ _ _ _ _ _ Hrun Hk)).
Defined.

(** ** Leaving the process *)

(** X11: [find_species_from_accession] never ends the process; the two
    methods with a handler end it only when the engine answered with a
    database error, and then always with status 1; they never let an
    exception reach the caller. *)
Theorem exit_only_on_database_error
    self closest_accession genome_accession species w :
  (forall s, fst (find_species_from_accession self closest_accession w) <> Exited s) /\
  (forall s,
     fst (get_species_from_genomes_accession_from_db self genome_accession w)
     = Exited s ->
     s = 1%Z /\ exists e, db_error (cursor self) = Some e) /\
  (forall s,
     fst (get_all_genomes_for_a_species_from_db self species w) = Exited s ->
     s = 1%Z /\ exists e, db_error (cursor self) = Some e) /\
  (forall x,
     fst (get_species_from_genomes_accession_from_db self genome_accession w)
     <> Raised x /\
     fst (get_all_genomes_for_a_species_from_db self species w) <> Raised x).
Proof.
  rewrite find_species_from_accession_run,
    get_species_from_genomes_accession_from_db_run,
    get_all_genomes_for_a_species_from_db_run.
  unfold db_error. simpl.
  destruct (condition (cursor self)) as [|e|e]; simpl;
    (split; [|split; [|split]]).
  - intros s. destruct (fetched_taxon_names _ _ _); discriminate.
  - intros s H. discriminate H.
  - intros s H. discriminate H.
  - intros x. split; discriminate.
  - intros s. discriminate.
  - intros s [= <-]. split; [reflexivity | eauto].
  - intros s [= <-]. split; [reflexivity | eauto].
  - intros x. split; discriminate.
  - intros s. discriminate.
  - intros s [= <-]. split; [reflexivity | eauto].
  - intros s [= <-]. split; [reflexivity | eauto].
  - intros x. split; discriminate.
Qed.
